(** * The tetris game state machine (src/game.js)

    A shallow embedding of the [Game] class: an immutable snapshot that is
    advanced by [tick], [pause] and [mute].  The tetrion (board engine), the
    progress tracker and the sound player live in other modules of the
    program; they enter this development as an interface
    ([Collaborators]), and the sounds handed to [play] are collected in
    the order in which they are played.

    Times, deltas, levels and line counts are integers ([Z]).  The
    arithmetic of the [gravityDelay] getter is read over the real numbers
    ([Math.log] as [ln]).  A call either returns or throws
    ([Completion]). *)

From Stdlib Require Import ZArith Bool List String Lia Reals Lra.
From Stdlib Require Import DecimalString.
Import ListNotations.

Local Open Scope string_scope.
Local Open Scope Z_scope.

(** ** JavaScript values used by the class *)

(** The numbers [Math.round] can hand back on an integer level: an integer,
    [Infinity] (level 0, since [Math.log(0)] is [-Infinity]) or [NaN]
    (negative level). *)
Inductive JsNumber : Type :=
| Finite (z : Z)
| PlusInfinity
| NaN.

(** [x >= y] for a finite left operand: false against [Infinity] and [NaN]. *)
Definition js_ge (x : Z) (y : JsNumber) : bool :=
  match y with
  | Finite z => z <=? x
  | PlusInfinity => false
  | NaN => false
  end.

(** [Math.round]: the nearest integer, ties towards plus infinity. *)
Definition Math_round (x : R) : Z := Zfloor (x + 0.5)%R.

(** [Math.log], the natural logarithm, read over the real numbers. *)
Definition Math_log (x : R) : R := ln x.

(** An abrupt completion of a call. *)
Inductive JsError : Type :=
| TypeError.

Inductive Completion (A : Type) : Type :=
| Normal (a : A)
| Throw (e : JsError).

Arguments Normal {A} a.
Arguments Throw {A} e.

(** Truthiness of the optional [command] argument: [null], [undefined] and
    the empty string are falsy. *)
Definition truthy (command : option string) : option string :=
  match command with
  | Some EmptyString => None
  | Some c => Some c
  | None => None
  end.

(** ** The collaborators *)

(** What a tetrion operation returns: [{ tetrion, reward }]. *)
Module Result.
Record t (T R : Type) : Type := make { tetrion : T; reward : R }.
Arguments make {T R} tetrion reward.
Arguments tetrion {T R} _.
Arguments reward {T R} _.
End Result.

(** The parts of [./tetrion], [./progress] that [Game] touches.
    [same_object a b] is [a === b] on object references; [method c] is the
    property lookup [this.tetrion[c]], [None] when the tetrion has no such
    function. *)
Class Collaborators : Type := {
  Tetrion : Type;
  Reward : Type;
  Progress : Type;
  new_Tetrion : Tetrion;
  new_Progress : Progress;
  same_object : Tetrion -> Tetrion -> bool;
  spawn : Tetrion -> Tetrion;
  moveDown : Tetrion -> Result.t Tetrion Reward;
  lock : Tetrion -> Z -> Result.t Tetrion Reward;
  method : string -> option (Tetrion -> Z -> Result.t Tetrion Reward);
  fallingPiece : Tetrion -> bool;
  canMoveDown : Tetrion -> bool;
  reward_lines : Reward -> Z;
  add : Progress -> Reward -> Progress;
  progress_level : Progress -> Z;
  progress_lines : Progress -> Z;
  progress_score : Progress -> Z
}.

(** ** The game *)

Definition SPAWN_DELAY : Z := 100.
Definition LOCK_DELAY : Z := 1000.

Inductive State : Type :=
| spawning
| idle
| locking
| finished.

Definition State_eqb (a b : State) : bool :=
  match a, b with
  | spawning, spawning => true
  | idle, idle => true
  | locking, locking => true
  | finished, finished => true
  | _, _ => false
  end.

(** The delay formula of the [gravityDelay] getter as a function of the
    level. *)
Definition gravityDelayOf (level : Z) : JsNumber :=
  if 0 <? level
  then Finite (Math_round (-333.54 * Math_log (IZR level) + 999.98)%R)
  else if level =? 0 then PlusInfinity
  else NaN.

(** The switch at the end of [playSound]. *)
Definition cue (command : string) : list string :=
  if existsb (String.eqb command) ["moveLeft"; "moveRight"; "moveDown"; "softDrop"]
  then ["move"]
  else if existsb (String.eqb command) ["rotateLeft"; "rotateRight"]
  then ["rotate"]
  else if existsb (String.eqb command) ["firmDrop"; "hardDrop"]
  then ["drop"]
  else if String.eqb command "lock" then ["lock"]
  else if String.eqb command "hold" then ["hold"]
  else if String.eqb command "gameOver" then ["game-over"]
  else [].

Section GameModel.

Context {C : Collaborators}.

Record Game : Type := mkGame {
  time : Z;
  state : State;
  paused : bool;
  muted : bool;
  tetrion : Tetrion;
  spawnTimer : Z;
  lockTimer : Z;
  gravityTimer : Z;
  progress : Progress;
  reward : option Reward
}.

(** [new Game(muted)] *)
Definition new_Game (muted : bool) : Game :=
  {| time := 0;
     state := spawning;
     paused := false;
     muted := muted;
     tetrion := new_Tetrion;
     spawnTimer := 0;
     lockTimer := 0;
     gravityTimer := 0;
     progress := new_Progress;
     reward := None |}.

Definition level (g : Game) : Z := progress_level (progress g).
Definition lines (g : Game) : Z := progress_lines (progress g).
Definition score (g : Game) : Z := progress_score (progress g).

Definition isIdle (g : Game) : bool := State_eqb (state g) idle.
Definition isSpawning (g : Game) : bool := State_eqb (state g) spawning.
Definition isLocking (g : Game) : bool := State_eqb (state g) locking.
Definition over (g : Game) : bool := State_eqb (state g) finished.

Definition gravityDelay (g : Game) : JsNumber := gravityDelayOf (level g).

(** [playSound]: the list of sounds passed to [play] (at most one). *)
Definition playSound (g : Game) (command : string)
           (clearLine levelUp : bool) : list string :=
  if muted g then []
  else if levelUp then ["level-up"]
  else if clearLine then ["clear-line"]
  else cue command.

(** [copy(this, { time, state, tetrion, spawnTimer, lockTimer,
    gravityTimer, progress, reward })] *)
Definition copy_tick (g : Game) (time : Z) (state : State) (tetrion : Tetrion)
           (spawnTimer lockTimer gravityTimer : Z)
           (progress : Progress) (reward : option Reward) : Game :=
  {| time := time;
     state := state;
     paused := paused g;
     muted := muted g;
     tetrion := tetrion;
     spawnTimer := spawnTimer;
     lockTimer := lockTimer;
     gravityTimer := gravityTimer;
     progress := progress;
     reward := reward |}.

(** The command branch of [tick], entered with a truthy command.  Calling
    [this.tetrion[command]] when the tetrion has no such function throws a
    [TypeError] before anything else happens. *)
Definition dispatch (g : Game) (time : Z) (command : string)
  : Completion (Game * list string) :=
  match method command with
  | None => Throw TypeError
  | Some f =>
      let result := f (tetrion g) (level g) in
      let tetrion' := Result.tetrion result in
      let reward' := Result.reward result in
      let progress' := add (progress g) reward' in
      let sounds :=
        if negb (same_object tetrion' (tetrion g))
        then playSound g command (0 <? reward_lines reward')
                       (progress_level (progress g) <? progress_level progress')
        else [] in
      if negb (fallingPiece tetrion')
      then Normal (copy_tick g time spawning tetrion' time (lockTimer g)
                             (gravityTimer g) progress' (Some reward'), sounds)
      else if isLocking g && canMoveDown tetrion'
      then Normal (copy_tick g time idle tetrion' (spawnTimer g) (lockTimer g)
                             time progress' (Some reward'), sounds)
      else Normal (copy_tick g time (state g) tetrion' (spawnTimer g)
                             (lockTimer g) (gravityTimer g) progress'
                             (Some reward'), sounds)
  end.

(** The conditions of the four branches of [tick], at the new time. *)
Definition spawn_due (g : Game) (time : Z) : bool :=
  isSpawning g && (SPAWN_DELAY <=? time - spawnTimer g).

Definition gravity_due (g : Game) (time : Z) : bool :=
  isIdle g && js_ge (time - gravityTimer g) (gravityDelay g).

Definition lock_due (g : Game) (time : Z) : bool :=
  isLocking g && (LOCK_DELAY <=? time - lockTimer g).

Definition command_due (g : Game) (command : option string) : option string :=
  if isIdle g || isLocking g then truthy command else None.

(** [tick(delta, command)]: the new game together with the sounds played
    during the call, or the error the call throws. *)
Definition tick (g : Game) (delta : Z) (command : option string)
  : Completion (Game * list string) :=
  if paused g then Normal (g, [])
  else
    let time := time g + delta in
    if spawn_due g time
    then
      let tetrion' := spawn (tetrion g) in
      if same_object tetrion' (tetrion g)
      then Normal (copy_tick g time finished tetrion' (spawnTimer g)
                             (lockTimer g) (gravityTimer g) (progress g)
                             (reward g),
                   playSound g "gameOver" false false)
      else Normal (copy_tick g time idle tetrion' (spawnTimer g)
                             (lockTimer g) time (progress g) (reward g), [])
    else if gravity_due g time
    then
      let result := moveDown (tetrion g) in
      let tetrion' := Result.tetrion result in
      let reward' := Result.reward result in
      let sounds := playSound g "moveDown" false false in
      if same_object tetrion' (tetrion g)
      then Normal (copy_tick g time locking tetrion' (spawnTimer g) time time
                             (progress g) (Some reward'), sounds)
      else Normal (copy_tick g time idle tetrion' (spawnTimer g)
                             (lockTimer g) time (progress g) (Some reward'),
                   sounds)
    else if lock_due g time
    then
      let result := lock (tetrion g) (level g) in
      let tetrion' := Result.tetrion result in
      let reward' := Result.reward result in
      let progress' := add (progress g) reward' in
      let sounds :=
        playSound g "lock" (0 <? reward_lines reward')
                  (progress_level (progress g) <? progress_level progress') in
      Normal (copy_tick g time spawning tetrion' time (lockTimer g)
                        (gravityTimer g) progress' (Some reward'), sounds)
    else
      match command_due g command with
      | Some c => dispatch g time c
      | None =>
          Normal (copy_tick g time (state g) (tetrion g) (spawnTimer g)
                            (lockTimer g) (gravityTimer g) (progress g)
                            (reward g), [])
      end.

(** [pause()] and [mute()] *)
Definition pause (g : Game) : Game :=
  {| time := time g; state := state g; paused := negb (paused g);
     muted := muted g; tetrion := tetrion g; spawnTimer := spawnTimer g;
     lockTimer := lockTimer g; gravityTimer := gravityTimer g;
     progress := progress g; reward := reward g |}.

Definition mute (g : Game) : Game :=
  {| time := time g; state := state g; paused := paused g;
     muted := negb (muted g); tetrion := tetrion g;
     spawnTimer := spawnTimer g; lockTimer := lockTimer g;
     gravityTimer := gravityTimer g; progress := progress g;
     reward := reward g |}.

End GameModel.

Arguments Game C : clear implicits.

(** ** Sequences of calls *)

(** The three public operations, and a game driven through a list of them. *)
Inductive Call : Type :=
| CallTick (delta : Z) (command : option string)
| CallPause
| CallMute.

Definition call {C : Collaborators} (g : Game C) (c : Call)
  : Completion (Game C * list string) :=
  match c with
  | CallTick delta command => tick g delta command
  | CallPause => Normal (pause g, [])
  | CallMute => Normal (mute g, [])
  end.

Fixpoint run {C : Collaborators} (g : Game C) (cs : list Call)
  : Completion (Game C * list string) :=
  match cs with
  | [] => Normal (g, [])
  | c :: cs' =>
      match call g c with
      | Throw e => Throw e
      | Normal (g', played) =>
          match run g' cs' with
          | Throw e => Throw e
          | Normal (g'', played') => Normal (g'', (played ++ played')%list)
          end
      end
  end.

(** ** A small tetrion to run the game on

    A well two cells wide and three high in which single cells fall.  A
    tetrion is the height of each column and the falling cell, if any;
    two tetrions are the same object exactly when they are equal, as in a
    tetrion that returns [this] from every operation without effect. *)
Module Toy.

Record well : Type := mkWell {
  left_height : nat;
  right_height : nat;
  piece : option (bool * nat)   (* (in the right column?, row) *)
}.

Definition height (w : well) (right : bool) : nat :=
  if right then right_height w else left_height w.

Definition piece_eqb (p q : option (bool * nat)) : bool :=
  match p, q with
  | None, None => true
  | Some (c, y), Some (c', y') => Bool.eqb c c' && Nat.eqb y y'
  | _, _ => false
  end.

Definition well_eqb (a b : well) : bool :=
  Nat.eqb (left_height a) (left_height b)
  && Nat.eqb (right_height a) (right_height b)
  && piece_eqb (piece a) (piece b).

Definition with_piece (w : well) (p : option (bool * nat)) : well :=
  mkWell (left_height w) (right_height w) p.

Definition empty : well := mkWell 0 0 None.

(** A cell enters at the top of the left column. *)
Definition enter (w : well) : well :=
  match piece w with
  | Some _ => w
  | None => if Nat.leb (left_height w) 2 then with_piece w (Some (false, 2%nat)) else w
  end.

Definition can_fall (w : well) : bool :=
  match piece w with
  | Some (c, y) => Nat.ltb (height w c) y
  | None => false
  end.

Definition down (w : well) : well :=
  match piece w with
  | Some (c, y) => if Nat.ltb (height w c) y then with_piece w (Some (c, Nat.pred y)) else w
  | None => w
  end.

Definition shift (to_right : bool) (w : well) : well :=
  match piece w with
  | Some (c, y) =>
      if Bool.eqb c to_right then w
      else if Nat.leb (height w to_right) y then with_piece w (Some (to_right, y))
      else w
  | None => w
  end.

Definition drop (w : well) : well :=
  match piece w with
  | Some (c, y) => if Nat.ltb (height w c) y then with_piece w (Some (c, height w c)) else w
  | None => w
  end.

(** Fixing the cell; a full bottom row is cleared and rewarded. *)
Definition fix_piece (w : well) : well * Z :=
  match piece w with
  | Some (c, y) =>
      let l := if c then left_height w else S y in
      let r := if c then S y else right_height w in
      if Nat.ltb 0 l && Nat.ltb 0 r
      then (mkWell (Nat.pred l) (Nat.pred r) None, 1)
      else (mkWell l r None, 0)
  | None => (w, 0)
  end.

Definition quiet (f : well -> well) (w : well) (_ : Z) : Result.t well Z :=
  Result.make (f w) 0.

Definition fixing (f : well -> well) (w : well) (_ : Z) : Result.t well Z :=
  let (w', n) := fix_piece (f w) in Result.make w' n.

Definition operation (c : string) : option (well -> Z -> Result.t well Z) :=
  if String.eqb c "moveLeft" then Some (quiet (shift false))
  else if String.eqb c "moveRight" then Some (quiet (shift true))
  else if String.eqb c "moveDown" then Some (quiet down)
  else if String.eqb c "softDrop" then Some (quiet down)
  else if String.eqb c "rotateLeft" then Some (quiet (fun w => w))
  else if String.eqb c "rotateRight" then Some (quiet (fun w => w))
  else if String.eqb c "firmDrop" then Some (quiet drop)
  else if String.eqb c "hardDrop" then Some (fixing drop)
  else if String.eqb c "hold" then Some (quiet (fun w => w))
  else None.

(** Progress: the lines cleared so far; a level every ten lines. *)
#[export] Instance collaborators : Collaborators := {|
  Tetrion := well;
  Reward := Z;
  Progress := Z;
  new_Tetrion := empty;
  new_Progress := 0;
  same_object := well_eqb;
  spawn := enter;
  moveDown := fun w => quiet down w 0;
  lock := fixing (fun w => w);
  method := operation;
  fallingPiece := fun w => match piece w with Some _ => true | None => false end;
  canMoveDown := can_fall;
  reward_lines := fun n => n;
  add := fun p n => p + n;
  progress_level := fun p => 1 + p / 10;
  progress_lines := fun p => p;
  progress_score := fun p => 100 * p
|}.

Definition game : Type := Game collaborators.

(** Snapshots of a round: just constructed; with the first cell falling;
    with a cell resting on the left column next to a free right column;
    after a hard drop; and with the left column filled to the top. *)
Definition fresh : game := new_Game false.

Definition falling : game :=
  mkGame 100 idle false false (mkWell 0 0 (Some (false, 2%nat))) 0 0 100 0 None.

Definition resting : game :=
  mkGame 5300 locking false false (mkWell 1 0 (Some (false, 1%nat)))
         3200 5300 5300 0 (Some 0).

Definition dropped : game :=
  mkGame 100 spawning false false (mkWell 1 0 None) 100 0 100 0 (Some 0).

Definition full : game :=
  mkGame 9900 finished false true (mkWell 3 0 None) 9800 9700 8700 0 (Some 0).

(** An idle game on level 0 and one on level 21. *)
Definition level_zero : game :=
  mkGame 100 idle false false (mkWell 0 0 (Some (false, 2%nat))) 0 0 100 (-10) None.

Definition level_21 : game :=
  mkGame 100 idle false false (mkWell 0 0 (Some (false, 2%nat))) 0 0 100 200 None.

Definition show (z : Z) : string := NilZero.string_of_int (Z.to_int z).

Definition show_reward (r : option Z) : string :=
  match r with
  | Some n => show n
  | None => "null"
  end.

End Toy.

(** ** Fixed-point lower bounds for the exponential

    [exp_floor p q n] is a lower bound of [exp (p / q)], scaled by
    [scale]: it starts from [1 + x <= exp x] at [x = p / (q * 2 ^ n)] and
    squares [n] times, rounding down. *)
Definition scale : Z := 10 ^ 12.

Definition square_down (c : Z) : Z := c * c / scale.

Fixpoint squarings (n : nat) (c : Z) : Z :=
  match n with
  | O => c
  | S n' => squarings n' (square_down c)
  end.

Definition exp_floor (p q : Z) (n : nat) : Z :=
  squarings n (scale + scale * p / (q * 2 ^ Z.of_nat n)).

(** ** The diagnostic summary *)

(** The string held by the [state] field. *)
Definition state_name (s : State) : string :=
  match s with
  | spawning => "spawning"
  | idle => "idle"
  | locking => "locking"
  | finished => "finished"
  end.

Section Printing.

Context {C : Collaborators}.

(** How a template literal prints a number and the [reward] field ([null]
    or whatever the reward's own [toString] gives). *)
Variable Number_toString : Z -> string.
Variable reward_toString : option Reward -> string.

(** [toString()] *)
Definition toString (g : Game C) : string :=
  ("Game (state: " ++ state_name (state g)
   ++ ", lines: " ++ Number_toString (lines g)
   ++ ", level: " ++ Number_toString (level g)
   ++ ", score: " ++ Number_toString (score g)
   ++ ", reward: " ++ reward_toString (reward g) ++ ")")%string.

End Printing.

(** ** Vocabulary for runs *)

(** A list of [(delta, command)] pairs as a list of [tick] calls. *)
Definition ticks (steps : list (Z * option string)) : list Call :=
  map (fun step => CallTick (fst step) (snd step)) steps.

(** The sum of the deltas of the ticks made outside a pause, for a run
    that starts paused or not. *)
Fixpoint clock (paused : bool) (calls : list Call) : Z :=
  match calls with
  | [] => 0
  | CallTick delta _ :: calls' =>
      (if paused then 0 else delta) + clock paused calls'
  | CallPause :: calls' => clock (negb paused) calls'
  | CallMute :: calls' => clock paused calls'
  end.

Definition nonneg_delta (c : Call) : Prop :=
  match c with
  | CallTick delta _ => 0 <= delta
  | CallPause => True
  | CallMute => True
  end.

(** No timer is ahead of the clock. *)
Definition timers_behind {C : Collaborators} (g : Game C) : Prop :=
  spawnTimer g <= time g /\ lockTimer g <= time g /\ gravityTimer g <= time g.

(** Every name [playSound] can pass to [play]. *)
Definition sound_names : list string :=
  ["level-up"; "clear-line"; "move"; "rotate"; "drop"; "lock"; "hold";
   "game-over"].

(** * Properties *)

(** ** Real-number facts behind the gravity delay *)

Section Logarithm.

Local Open Scope R_scope.


Lemma scale_pos : 0 < IZR scale.
Proof. apply IZR_lt. reflexivity. Qed.

Lemma IZR_div_le (a b : Z) : (0 < b)%Z -> IZR (a / b) <= IZR a / IZR b.
Proof.
  intros Hb.
  assert (Hb' : 0 < IZR b) by (apply IZR_lt; exact Hb).
  apply Rmult_le_reg_r with (IZR b); [exact Hb'|].
  unfold Rdiv. rewrite Rmult_assoc, Rinv_l, Rmult_1_r by lra.
  rewrite <- mult_IZR. apply IZR_le.
  rewrite Z.mul_comm. apply Z.mul_div_le. exact Hb.
Qed.

Lemma square_down_nonneg (c : Z) : (0 <= square_down c)%Z.
Proof.
  unfold square_down. apply Z.div_pos; [nia | reflexivity].
Qed.

Lemma square_down_sound (x : R) (c : Z) :
  (0 <= c)%Z -> IZR c / IZR scale <= exp x ->
  IZR (square_down c) / IZR scale <= exp (2 * x).
Proof.
  intros Hc H.
  pose proof scale_pos as Hs.
  assert (H0 : 0 <= IZR c / IZR scale).
  { apply Rmult_le_pos; [apply IZR_le; exact Hc | left; apply Rinv_0_lt_compat; exact Hs]. }
  replace (2 * x) with (x + x) by ring. rewrite exp_plus.
  apply Rle_trans with ((IZR c / IZR scale) * (IZR c / IZR scale)).
  - unfold square_down.
    apply Rmult_le_reg_r with (IZR scale); [exact Hs|].
    unfold Rdiv at 1. rewrite Rmult_assoc, Rinv_l, Rmult_1_r by lra.
    eapply Rle_trans; [apply IZR_div_le; reflexivity|].
    rewrite mult_IZR. right. field. lra.
  - apply Rmult_le_compat; assumption.
Qed.

Lemma squarings_sound (n : nat) :
  forall (x : R) (c : Z),
    (0 <= c)%Z -> IZR c / IZR scale <= exp x ->
    IZR (squarings n c) / IZR scale <= exp (2 ^ n * x).
Proof.
  induction n as [|n IH]; intros x c Hc H; simpl.
  - rewrite Rmult_1_l. exact H.
  - replace (2 * 2 ^ n * x) with (2 ^ n * (2 * x)) by ring.
    apply IH; [apply square_down_nonneg | apply square_down_sound; assumption].
Qed.

Lemma exp_floor_sound (p q : Z) (n : nat) :
  (0 < q)%Z ->
  (0 <= scale + scale * p / (q * 2 ^ Z.of_nat n))%Z ->
  IZR (exp_floor p q n) / IZR scale <= exp (IZR p / IZR q).
Proof.
  intros Hq Hc. unfold exp_floor.
  pose proof scale_pos as Hs.
  assert (Hq' : 0 < IZR q) by (apply IZR_lt; exact Hq).
  assert (Hn : 0 < 2 ^ n) by (apply pow_lt; lra).
  assert (Hd : (0 < q * 2 ^ Z.of_nat n)%Z) by (apply Z.mul_pos_pos; [exact Hq | apply Z.pow_pos_nonneg; lia]).
  assert (Hqn : IZR q * 2 ^ n <> 0) by (apply Rmult_integral_contrapositive_currified; lra).
  replace (IZR p / IZR q) with (2 ^ n * (IZR p / (IZR q * 2 ^ n)))
    by (field; repeat split; (assumption || lra)).
  apply squarings_sound; [exact Hc|].
  eapply Rle_trans; [| apply exp_ineq1_le].
  rewrite plus_IZR.
  unfold Rdiv at 1. rewrite Rmult_plus_distr_r. rewrite Rinv_r by lra.
  apply Rplus_le_compat_l.
  apply Rmult_le_reg_r with (IZR scale); [exact Hs|].
  rewrite Rmult_assoc, Rinv_l, Rmult_1_r by lra.
  eapply Rle_trans; [apply IZR_div_le; exact Hd|].
  rewrite !mult_IZR, <- (pow_IZR 2 n). right.
  field; repeat split; (assumption || lra).
Qed.

Lemma ln_2_upper : ln 2 <= 0.69321.
Proof.
  destruct (Rle_or_lt (ln 2) 0.69321) as [H|H]; [exact H|exfalso].
  apply exp_increasing in H. rewrite exp_ln in H by lra.
  assert (B : IZR (exp_floor 69321 100000 14) / IZR scale <= exp (IZR 69321 / IZR 100000)).
  { apply exp_floor_sound; [reflexivity | vm_compute; discriminate]. }
  replace (IZR 69321 / IZR 100000) with 0.69321 in B by lra.
  assert (E : 2 <= IZR (exp_floor 69321 100000 14) / IZR scale).
  { apply Rmult_le_reg_r with (IZR scale); [apply scale_pos|].
    unfold Rdiv. rewrite Rmult_assoc, Rinv_l, Rmult_1_r by (pose proof scale_pos; lra).
    rewrite <- mult_IZR. apply IZR_le. vm_compute. discriminate. }
  lra.
Qed.

Lemma ln_2_lower : 0.693015 <= ln 2.
Proof.
  destruct (Rle_or_lt 0.693015 (ln 2)) as [H|H]; [exact H|exfalso].
  apply Ropp_lt_contravar in H.
  apply exp_increasing in H. rewrite (exp_Ropp (ln 2)), exp_ln in H by lra.
  assert (B : IZR (exp_floor (-693015) 1000000 14) / IZR scale <= exp (IZR (-693015) / IZR 1000000)).
  { apply exp_floor_sound; [reflexivity | vm_compute; discriminate]. }
  replace (IZR (-693015) / IZR 1000000) with (Ropp 0.693015) in B by lra.
  assert (E : / 2 <= IZR (exp_floor (-693015) 1000000 14) / IZR scale).
  { apply Rmult_le_reg_r with (IZR scale); [apply scale_pos|].
    unfold Rdiv. rewrite Rmult_assoc, Rinv_l, Rmult_1_r by (pose proof scale_pos; lra).
    apply Rmult_le_reg_l with 2; [lra|].
    rewrite <- Rmult_assoc, Rinv_r, Rmult_1_l by lra.
    rewrite <- mult_IZR. apply IZR_le. vm_compute. discriminate. }
  lra.
Qed.


Lemma Math_round_eq (k : Z) (x : R) :
  IZR k - 0.5 <= x < IZR k + 0.5 -> Math_round x = k.
Proof.
  intros [Hl Hu]. unfold Math_round. apply Zfloor_eq. lra.
Qed.

Lemma Math_round_le (x y : R) : x <= y -> (Math_round x <= Math_round y)%Z.
Proof.
  intros H. unfold Math_round. apply Zfloor_le. lra.
Qed.

Lemma Math_round_step (x y : R) : x + 1 <= y -> (Math_round x < Math_round y)%Z.
Proof.
  intros H. unfold Math_round.
  assert (E : (Zfloor (x + 0.5) + 1 <= Zfloor (y + 0.5))%Z).
  { rewrite <- Zfloor_addz. apply Zfloor_le. lra. }
  lia.
Qed.

Lemma ln_monotone (x y : R) : 0 < x -> x <= y -> ln x <= ln y.
Proof.
  intros Hx [H|H].
  - left. apply ln_increasing; assumption.
  - subst. right. reflexivity.
Qed.

Lemma ln_1_plus (x : R) : -1 < x -> ln (1 + x) <= x.
Proof.
  intros Hx.
  destruct (Rle_or_lt (ln (1 + x)) x) as [H|H]; [exact H|exfalso].
  apply exp_increasing in H. rewrite exp_ln in H by lra.
  pose proof (exp_ineq1_le x). lra.
Qed.

Lemma gravityDelayOf_finite (l : Z) :
  (1 <= l)%Z ->
  gravityDelayOf l = Finite (Math_round (-333.54 * ln (IZR l) + 999.98)).
Proof.
  intros H. unfold gravityDelayOf, Math_log.
  destruct (Z.ltb_spec 0 l); [reflexivity | lia].
Qed.

Lemma gravityDelayOf_1 : gravityDelayOf 1 = Finite 1000.
Proof.
  rewrite gravityDelayOf_finite by lia. f_equal.
  apply Math_round_eq. rewrite ln_1. lra.
Qed.

Lemma gravityDelayOf_2 : gravityDelayOf 2 = Finite 769.
Proof.
  rewrite gravityDelayOf_finite by lia. f_equal.
  apply Math_round_eq.
  pose proof ln_2_lower. pose proof ln_2_upper. lra.
Qed.

Lemma ln_1024 : ln 1024 = 10 * ln 2.
Proof.
  replace 1024 with (2 ^ 10) by lra.
  rewrite ln_pow by lra. simpl INR. f_equal. lra.
Qed.

Lemma gravityDelayOf_1024 : gravityDelayOf 1024 = Finite (-1312).
Proof.
  rewrite gravityDelayOf_finite by lia. f_equal.
  apply Math_round_eq. rewrite ln_1024.
  pose proof ln_2_lower. pose proof ln_2_upper. lra.
Qed.

Lemma gravityDelayOf_1025 : gravityDelayOf 1025 = Finite (-1312).
Proof.
  rewrite gravityDelayOf_finite by lia. f_equal.
  apply Math_round_eq.
  assert (Hl : ln 1024 <= ln 1025) by (apply ln_monotone; lra).
  assert (Hu : ln 1025 <= ln 1024 + / 1024).
  { replace 1025 with (1024 * (1 + / 1024)) by lra.
    rewrite ln_mult by lra.
    pose proof (ln_1_plus (/ 1024)). lra. }
  rewrite ln_1024 in Hl, Hu.
  pose proof ln_2_lower. pose proof ln_2_upper. lra.
Qed.

Lemma ln_succ (a : R) : 1 <= a -> / (a + 1) <= ln (a + 1) - ln a.
Proof.
  intros Ha.
  assert (Hp : 0 < a + 1) by lra.
  assert (Hi : 0 < / (a + 1)) by (apply Rinv_0_lt_compat; exact Hp).
  assert (Hi1 : / (a + 1) < 1).
  { rewrite <- Rinv_1. apply Rinv_lt_contravar; lra. }
  assert (E : ln a = ln (a + 1) + ln (1 + - / (a + 1))).
  { rewrite <- ln_mult by lra. f_equal. field. lra. }
  pose proof (ln_1_plus (- / (a + 1))). lra.
Qed.

Lemma gravityDelay_formula_monotone (a b : Z) :
  (1 <= a)%Z -> (a <= b)%Z ->
  (Math_round (-333.54 * ln (IZR b) + 999.98)
   <= Math_round (-333.54 * ln (IZR a) + 999.98))%Z.
Proof.
  intros Ha Hab. apply Math_round_le.
  assert (H : ln (IZR a) <= ln (IZR b)).
  { apply ln_monotone; [apply IZR_lt; lia | apply IZR_le; exact Hab]. }
  lra.
Qed.

Lemma gravityDelay_formula_strict (a b : Z) :
  (1 <= a)%Z -> (a < b)%Z -> (b <= 333)%Z ->
  (Math_round (-333.54 * ln (IZR b) + 999.98)
   < Math_round (-333.54 * ln (IZR a) + 999.98))%Z.
Proof.
  intros Ha Hab Hb. apply Math_round_step.
  assert (Ha' : 1 <= IZR a) by (apply IZR_le; exact Ha).
  assert (H1 : ln (IZR a + 1) <= ln (IZR b)).
  { apply ln_monotone; [lra|]. rewrite <- plus_IZR. apply IZR_le. lia. }
  pose proof (ln_succ (IZR a) Ha') as H2.
  assert (H3 : / 333 <= / (IZR a + 1)).
  { apply Rinv_le_contravar; [lra|]. rewrite <- plus_IZR. apply IZR_le. lia. }
  lra.
Qed.

End Logarithm.

(** ** The state machine *)

Section GameTheory.

Context {C : Collaborators}.

Implicit Types (g : Game C) (delta : Z) (command : option string).

Lemma State_eqb_eq (a b : State) : State_eqb a b = true <-> a = b.
Proof. destruct a, b; simpl; split; congruence. Qed.

(** Rewrites the state tests of a game whose state is known. *)
Ltac known_state H :=
  unfold spawn_due, gravity_due, lock_due, command_due,
    isSpawning, isIdle, isLocking, over;
  rewrite ?H; cbn [State_eqb andb orb].

(** When no timer is due, an idle or locking game hands a truthy command to
    the tetrion. *)
Lemma tick_dispatches g delta command c :
  paused g = false ->
  state g = idle \/ state g = locking ->
  gravity_due g (time g + delta) = false ->
  lock_due g (time g + delta) = false ->
  truthy command = Some c ->
  tick g delta command = dispatch g (time g + delta) c.
Proof.
  intros Hp Hs Hg Hl Hc. unfold tick. rewrite Hp, Hg, Hl.
  destruct Hs as [Hs|Hs]; known_state Hs; rewrite Hc; reflexivity.
Qed.

(** A tick in which no branch fires only moves the clock. *)
Lemma tick_idles g delta command :
  paused g = false ->
  spawn_due g (time g + delta) = false ->
  gravity_due g (time g + delta) = false ->
  lock_due g (time g + delta) = false ->
  command_due g command = None ->
  tick g delta command
  = Normal (copy_tick g (time g + delta) (state g) (tetrion g) (spawnTimer g)
                      (lockTimer g) (gravityTimer g) (progress g) (reward g),
            []).
Proof.
  intros Hp Hs Hg Hl Hc. unfold tick. rewrite Hp, Hs, Hg, Hl, Hc. reflexivity.
Qed.

(** C5: a paused game is returned as it is by [tick], whatever the delta and
    the command: no field changes, and no sound is played. *)
Theorem tick_paused g delta command :
  paused g = true -> tick g delta command = Normal (g, []).
Proof.
  intros Hp. unfold tick. rewrite Hp. reflexivity.
Qed.

(** C10: in a finished game that is not paused, [tick] still adds the delta
    to the time and leaves every other field as it was; nothing is
    played. *)
Theorem tick_finished_time g delta command :
  state g = finished ->
  paused g = false ->
  tick g delta command
  = Normal ({| time := time g + delta;
               state := finished;
               paused := false;
               muted := muted g;
               tetrion := tetrion g;
               spawnTimer := spawnTimer g;
               lockTimer := lockTimer g;
               gravityTimer := gravityTimer g;
               progress := progress g;
               reward := reward g |}, []).
Proof.
  intros Hs Hp. unfold tick, copy_tick. rewrite Hp. known_state Hs. reflexivity.
Qed.

(** C6: finished is absorbing.  From a finished game every [tick] returns a
    finished game, so do [pause] and [mute], and so does every sequence of
    calls. *)
Theorem finished_absorbing g :
  state g = finished ->
  (forall delta command,
      exists g' played,
        tick g delta command = Normal (g', played) /\ state g' = finished)
  /\ state (pause g) = finished
  /\ state (mute g) = finished
  /\ (forall calls,
         exists g' played,
           run g calls = Normal (g', played) /\ state g' = finished).
Proof.
  assert (Htick : forall g0 delta command,
             state g0 = finished ->
             exists g' played,
               tick g0 delta command = Normal (g', played)
               /\ state g' = finished).
  { intros g0 delta command Hs. unfold tick.
    destruct (paused g0); [eauto|].
    known_state Hs. unfold copy_tick. eauto. }
  intros Hs. repeat split; auto.
  intros calls. revert g Hs.
  induction calls as [|c calls IH]; intros g Hs; simpl.
  - eauto.
  - assert (Hc : exists g1 played1,
               call g c = Normal (g1, played1) /\ state g1 = finished).
    { destruct c as [delta command| |]; simpl; eauto. }
    destruct Hc as (g1 & played1 & Hc & Hs1). rewrite Hc.
    destruct (IH g1 Hs1) as (g2 & played2 & Hr & Hs2). rewrite Hr. eauto.
Qed.

(** C1: in a spawning game that is not paused, once the new time is at
    least [SPAWN_DELAY] past [spawnTimer], [tick] takes the tetrion returned
    by [spawn].  If that is the same tetrion the game becomes finished and
    "game-over" is played unless muted; otherwise the game becomes idle with
    [gravityTimer] at the new time, and nothing is played.  From a new game,
    [tick(99, null)] stays spawning, and [tick(100, null)] with a successful
    spawn is idle with [gravityTimer] 100. *)
Theorem tick_spawn :
  (forall g delta command,
      state g = spawning ->
      paused g = false ->
      SPAWN_DELAY <= time g + delta - spawnTimer g ->
      exists g' played,
        tick g delta command = Normal (g', played)
        /\ tetrion g' = spawn (tetrion g)
        /\ (same_object (spawn (tetrion g)) (tetrion g) = true ->
            state g' = finished
            /\ played = if muted g then [] else ["game-over"])
        /\ (same_object (spawn (tetrion g)) (tetrion g) = false ->
            state g' = idle
            /\ gravityTimer g' = time g + delta
            /\ played = []))
  /\ (forall muted,
         exists g',
           tick (new_Game muted) 99 None = Normal (g', [])
           /\ state g' = spawning)
  /\ (forall muted,
         same_object (spawn new_Tetrion) new_Tetrion = false ->
         exists g',
           tick (new_Game muted) 100 None = Normal (g', [])
           /\ state g' = idle
           /\ gravityTimer g' = 100).
Proof.
  split; [|split].
  - intros g delta command Hs Hp Hd.
    apply Z.leb_le in Hd. unfold tick. rewrite Hp. known_state Hs. rewrite Hd.
    destruct (same_object (spawn (tetrion g)) (tetrion g)) eqn:Hsame.
    + eexists; eexists. split; [reflexivity|]. cbn.
      split; [reflexivity|]. split; [|discriminate].
      intros _. split; [reflexivity|].
      unfold playSound. destruct (muted g); reflexivity.
    + eexists; eexists. split; [reflexivity|]. cbn.
      split; [reflexivity|]. split; [discriminate|]. auto.
  - intros m. eexists. split; reflexivity.
  - intros m Hsame. unfold tick. cbn. rewrite Hsame.
    eexists. split; [reflexivity|]. split; reflexivity.
Qed.

(** C2: in an idle game that is not paused, once the new time is at least
    [gravityDelay] past [gravityTimer], [tick] takes the tetrion returned by
    [moveDown], plays "move" unless muted, whether or not the tetrion moved,
    and sets [gravityTimer] to the new time.  If the tetrion is the same
    object the game becomes locking with [lockTimer] at the new time;
    otherwise it stays idle. *)
Theorem tick_gravity g delta command :
  state g = idle ->
  paused g = false ->
  js_ge (time g + delta - gravityTimer g) (gravityDelay g) = true ->
  exists g',
    tick g delta command
    = Normal (g', if muted g then [] else ["move"])
    /\ tetrion g' = Result.tetrion (moveDown (tetrion g))
    /\ gravityTimer g' = time g + delta
    /\ (same_object (Result.tetrion (moveDown (tetrion g))) (tetrion g) = true ->
        state g' = locking /\ lockTimer g' = time g + delta)
    /\ (same_object (Result.tetrion (moveDown (tetrion g))) (tetrion g) = false ->
        state g' = idle).
Proof.
  intros Hs Hp Hd. unfold tick. rewrite Hp. known_state Hs. rewrite Hd.
  assert (Hplay : playSound g "moveDown" false false
                  = if muted g then [] else ["move"]).
  { unfold playSound. destruct (muted g); reflexivity. }
  rewrite Hplay.
  destruct (same_object (Result.tetrion (moveDown (tetrion g))) (tetrion g));
    eexists; (split; [reflexivity|]); cbn; repeat split;
    auto; discriminate.
Qed.

(** C3: in a locking game that is not paused, once the new time is at least
    [LOCK_DELAY] past [lockTimer], [tick] locks the tetrion at the current
    level, adds the reward to the progress, and becomes spawning with
    [spawnTimer] at the new time.  Unless muted it plays exactly one sound:
    "level-up" if the level rose, else "clear-line" if the reward has lines,
    else "lock". *)
Theorem tick_lock g delta command :
  state g = locking ->
  paused g = false ->
  LOCK_DELAY <= time g + delta - lockTimer g ->
  exists g',
    tick g delta command
    = Normal (g',
              if muted g then []
              else if level g
                      <? progress_level
                           (add (progress g)
                                (Result.reward (lock (tetrion g) (level g))))
                   then ["level-up"]
              else if 0 <? reward_lines
                             (Result.reward (lock (tetrion g) (level g)))
                   then ["clear-line"]
              else ["lock"])
    /\ tetrion g' = Result.tetrion (lock (tetrion g) (level g))
    /\ reward g' = Some (Result.reward (lock (tetrion g) (level g)))
    /\ progress g'
       = add (progress g) (Result.reward (lock (tetrion g) (level g)))
    /\ state g' = spawning
    /\ spawnTimer g' = time g + delta.
Proof.
  intros Hs Hp Hd. apply Z.leb_le in Hd.
  unfold tick. rewrite Hp. known_state Hs. rewrite Hd.
  match goal with
  | |- context [playSound g "lock" ?lines ?up] =>
      assert (Hplay : playSound g "lock" lines up
                      = if muted g then []
                        else if up then ["level-up"]
                        else if lines then ["clear-line"]
                        else ["lock"])
        by (unfold playSound; destruct (muted g), up, lines; reflexivity);
      rewrite Hplay
  end.
  eexists. split; [reflexivity|]. cbn. repeat split; reflexivity.
Qed.

(** C4: in a locking game that is not paused and whose lock delay has not
    elapsed, a command the tetrion carries out is dispatched.  If the
    tetrion it returns still has a falling piece that can move down, the
    game becomes idle with [gravityTimer] at the new time; if it has no
    falling piece, the game becomes spawning with [spawnTimer] at the new
    time; otherwise the game stays locking. *)
Theorem tick_command_locking g delta c f :
  state g = locking ->
  paused g = false ->
  time g + delta - lockTimer g < LOCK_DELAY ->
  c <> EmptyString ->
  method c = Some f ->
  exists g' played,
    tick g delta (Some c) = Normal (g', played)
    /\ tetrion g' = Result.tetrion (f (tetrion g) (level g))
    /\ (fallingPiece (tetrion g') = true ->
        canMoveDown (tetrion g') = true ->
        state g' = idle /\ gravityTimer g' = time g + delta)
    /\ (fallingPiece (tetrion g') = false ->
        state g' = spawning /\ spawnTimer g' = time g + delta)
    /\ (fallingPiece (tetrion g') = true ->
        canMoveDown (tetrion g') = false ->
        state g' = state g).
Proof.
  intros Hs Hp Hd Hc Hf. apply Z.ltb_lt in Hd.
  rewrite (tick_dispatches g delta (Some c) c); auto.
  - unfold dispatch. rewrite Hf. known_state Hs.
    destruct (fallingPiece (Result.tetrion (f (tetrion g) (level g)))) eqn:Hfp;
      cbn [negb].
    + destruct (canMoveDown (Result.tetrion (f (tetrion g) (level g)))) eqn:Hcm;
        eexists; eexists; (split; [reflexivity|]); cbn;
        rewrite ?Hfp, ?Hcm; repeat split; auto; discriminate.
    + eexists; eexists. split; [reflexivity|]. cbn. rewrite Hfp.
      repeat split; auto; discriminate.
  - known_state Hs. reflexivity.
  - known_state Hs. rewrite Z.leb_antisym, Hd. reflexivity.
  - destruct c; [congruence|reflexivity].
Qed.

(** C7, as the code has it: [reward] is [null] in a new game, and a tick in
    which no branch fires plays nothing and hands on the reward of the game
    it was called on. *)
Theorem noop_tick_reward :
  (forall muted, reward (new_Game muted) = None)
  /\ (forall g delta command,
         paused g = false ->
         spawn_due g (time g + delta) = false ->
         gravity_due g (time g + delta) = false ->
         lock_due g (time g + delta) = false ->
         command_due g command = None ->
         exists g',
           tick g delta command = Normal (g', [])
           /\ reward g' = reward g).
Proof.
  split; [reflexivity|].
  intros g delta command Hp Hs Hg Hl Hc.
  rewrite tick_idles by assumption.
  eexists. split; reflexivity.
Qed.

(** C9, as the code has it: with a non-empty command for which the tetrion
    has no operation, a tick of a game that is not paused throws exactly
    when the command branch is reached, that is, in an idle or locking
    game in which neither gravity nor the lock is due; in every other case
    the command is not looked at and the call returns. *)
Theorem tick_unknown_command g delta c :
  paused g = false ->
  c <> EmptyString ->
  method c = None ->
  (tick g delta (Some c) = Throw TypeError
   <-> (state g = idle \/ state g = locking)
       /\ gravity_due g (time g + delta) = false
       /\ lock_due g (time g + delta) = false).
Proof.
  intros Hp Hc Hm.
  assert (Ht : truthy (Some c) = Some c) by (destruct c; [congruence|reflexivity]).
  split.
  - unfold tick. rewrite Hp.
    destruct (state g) eqn:Hs; known_state Hs;
      repeat match goal with
             | |- context [if ?b then _ else _] => destruct b
             end;
      try discriminate; auto.
  - intros (Hs & Hg & Hl).
    rewrite (tick_dispatches g delta (Some c) c) by assumption.
    unfold dispatch. rewrite Hm. reflexivity.
Qed.

End GameTheory.

(** ** The gravity delay *)

(** C8, as the formula has it: the delay is 1000 at level 1 and 769 at
    level 2; over the integer levels from 1 on it never increases, and it
    strictly decreases up to level 333.  (The logarithm is read over the
    real numbers.) *)
Theorem gravityDelay_levels :
  gravityDelayOf 1 = Finite 1000
  /\ gravityDelayOf 2 = Finite 769
  /\ (forall a b,
         1 <= a -> a <= b ->
         exists da db,
           gravityDelayOf a = Finite da
           /\ gravityDelayOf b = Finite db
           /\ db <= da)
  /\ (forall a b,
         1 <= a -> a < b -> b <= 333 ->
         exists da db,
           gravityDelayOf a = Finite da
           /\ gravityDelayOf b = Finite db
           /\ db < da).
Proof.
  split; [exact gravityDelayOf_1|].
  split; [exact gravityDelayOf_2|].
  split.
  - intros a b Ha Hab.
    rewrite (gravityDelayOf_finite a), (gravityDelayOf_finite b) by lia.
    eexists; eexists. split; [reflexivity|]. split; [reflexivity|].
    apply gravityDelay_formula_monotone; assumption.
  - intros a b Ha Hab Hb.
    rewrite (gravityDelayOf_finite a), (gravityDelayOf_finite b) by lia.
    eexists; eexists. split; [reflexivity|]. split; [reflexivity|].
    apply gravityDelay_formula_strict; assumption.
Qed.

Lemma gravityDelay_levels_witness :
  1 <= 1 /\ 1 < 2 /\ 2 <= 333
  /\ exists da db,
      gravityDelayOf 1 = Finite da /\ gravityDelayOf 2 = Finite db /\ db < da.
Proof.
  repeat (split; [lia|]).
  apply (proj2 (proj2 (proj2 gravityDelay_levels)) 1 2); lia.
Defined.

(** The delay is not strictly decreasing: levels 1024 and 1025 share the
    delay -1312. *)
Lemma gravityDelay_repeats :
  gravityDelayOf 1024 = Finite (-1312)
  /\ gravityDelayOf 1025 = Finite (-1312)
  /\ ~ (forall a b da db,
           1 <= a -> a < b ->
           gravityDelayOf a = Finite da -> gravityDelayOf b = Finite db ->
           db < da).
Proof.
  split; [exact gravityDelayOf_1024|].
  split; [exact gravityDelayOf_1025|].
  intros H.
  specialize (H 1024 1025 (-1312) (-1312)).
  pose proof (H ltac:(lia) ltac:(lia) gravityDelayOf_1024 gravityDelayOf_1025).
  lia.
Qed.

(** ** The game on the small tetrion *)

Lemma gravityDelay_falling : gravityDelay Toy.falling = Finite 1000.
Proof.
  change (gravityDelay Toy.falling) with (gravityDelayOf 1).
  exact gravityDelayOf_1.
Qed.

Lemma gravity_not_due_falling :
  gravity_due Toy.falling (time Toy.falling + 0) = false.
Proof.
  unfold gravity_due. rewrite gravityDelay_falling. reflexivity.
Qed.

(** The first calls of a round: the cell enters, then is dropped. *)
Lemma fresh_to_falling : tick Toy.fresh 100 None = Normal (Toy.falling, []).
Proof. reflexivity. Qed.

Lemma falling_to_dropped :
  tick Toy.falling 0 (Some "hardDrop") = Normal (Toy.dropped, ["drop"]).
Proof.
  rewrite (tick_dispatches Toy.falling 0 (Some "hardDrop") "hardDrop").
  - reflexivity.
  - reflexivity.
  - left. reflexivity.
  - exact gravity_not_due_falling.
  - reflexivity.
  - reflexivity.
Qed.

Lemma tick_spawn_witness :
  state Toy.fresh = spawning
  /\ paused Toy.fresh = false
  /\ SPAWN_DELAY <= time Toy.fresh + 100 - spawnTimer Toy.fresh
  /\ exists g' played,
      tick Toy.fresh 100 None = Normal (g', played)
      /\ tetrion g' = spawn (tetrion Toy.fresh).
Proof.
  split; [reflexivity|]. split; [reflexivity|].
  split; [vm_compute; discriminate|].
  destruct (proj1 tick_spawn Toy.fresh 100 None) as (g' & played & Ht & Hb & _).
  - reflexivity.
  - reflexivity.
  - vm_compute. discriminate.
  - exists g', played. split; assumption.
Defined.

Lemma tick_gravity_witness :
  state Toy.falling = idle
  /\ paused Toy.falling = false
  /\ js_ge (time Toy.falling + 1000 - gravityTimer Toy.falling)
           (gravityDelay Toy.falling) = true
  /\ exists g',
      tick Toy.falling 1000 None = Normal (g', ["move"])
      /\ gravityTimer g' = 1100.
Proof.
  assert (Hd : js_ge (time Toy.falling + 1000 - gravityTimer Toy.falling)
                     (gravityDelay Toy.falling) = true)
    by (rewrite gravityDelay_falling; reflexivity).
  split; [reflexivity|]. split; [reflexivity|]. split; [exact Hd|].
  destruct (tick_gravity Toy.falling 1000 None) as (g' & Ht & _ & Hg & _).
  - reflexivity.
  - reflexivity.
  - exact Hd.
  - exists g'. split; assumption.
Defined.

Lemma tick_lock_witness :
  state Toy.resting = locking
  /\ paused Toy.resting = false
  /\ LOCK_DELAY <= time Toy.resting + 1000 - lockTimer Toy.resting
  /\ exists g',
      tick Toy.resting 1000 None = Normal (g', ["lock"])
      /\ state g' = spawning
      /\ spawnTimer g' = 6300.
Proof.
  split; [reflexivity|]. split; [reflexivity|].
  split; [vm_compute; discriminate|].
  destruct (tick_lock Toy.resting 1000 None)
    as (g' & Ht & _ & _ & _ & Hs & Hsp).
  - reflexivity.
  - reflexivity.
  - vm_compute. discriminate.
  - exists g'. repeat split; assumption.
Defined.

Lemma tick_command_locking_witness :
  state Toy.resting = locking
  /\ paused Toy.resting = false
  /\ time Toy.resting + 16 - lockTimer Toy.resting < LOCK_DELAY
  /\ "moveRight" <> EmptyString
  /\ @method Toy.collaborators "moveRight" = Some (Toy.quiet (Toy.shift true))
  /\ exists g' played,
      tick Toy.resting 16 (Some "moveRight") = Normal (g', played)
      /\ tetrion g' = Toy.mkWell 1 0 (Some (true, 1%nat)).
Proof.
  split; [reflexivity|]. split; [reflexivity|]. split; [reflexivity|].
  split; [discriminate|]. split; [reflexivity|].
  destruct (tick_command_locking Toy.resting 16 "moveRight"
                                 (Toy.quiet (Toy.shift true)))
    as (g' & played & Ht & Hb & _).
  - reflexivity.
  - reflexivity.
  - reflexivity.
  - discriminate.
  - reflexivity.
  - exists g', played. split; assumption.
Defined.

Lemma tick_paused_witness :
  paused (pause Toy.falling) = true
  /\ tick (pause Toy.falling) 250 (Some "hardDrop")
     = Normal (pause Toy.falling, []).
Proof.
  split; [reflexivity|].
  apply (tick_paused (pause Toy.falling) 250 (Some "hardDrop")).
  reflexivity.
Defined.

Lemma finished_absorbing_witness :
  state Toy.full = finished
  /\ exists g' played,
      tick Toy.full 16 (Some "moveLeft") = Normal (g', played)
      /\ state g' = finished.
Proof.
  split; [reflexivity|].
  apply (proj1 (finished_absorbing Toy.full eq_refl) 16 (Some "moveLeft")).
Defined.

Lemma tick_finished_time_witness :
  state Toy.full = finished
  /\ paused Toy.full = false
  /\ exists g',
      tick Toy.full 16 (Some "moveLeft") = Normal (g', [])
      /\ time g' = 9916.
Proof.
  split; [reflexivity|]. split; [reflexivity|].
  eexists. split.
  - apply (tick_finished_time Toy.full 16 (Some "moveLeft")); reflexivity.
  - reflexivity.
Defined.

Lemma noop_tick_reward_witness :
  paused Toy.fresh = false
  /\ spawn_due Toy.fresh (time Toy.fresh + 99) = false
  /\ gravity_due Toy.fresh (time Toy.fresh + 99) = false
  /\ lock_due Toy.fresh (time Toy.fresh + 99) = false
  /\ command_due Toy.fresh (Some "hold") = None
  /\ exists g',
      tick Toy.fresh 99 (Some "hold") = Normal (g', [])
      /\ reward g' = reward Toy.fresh.
Proof.
  repeat (split; [reflexivity|]).
  apply (proj2 noop_tick_reward Toy.fresh 99 (Some "hold")); reflexivity.
Defined.

(** After a hard drop the game is spawning and carries the reward of the
    drop; the next tick fires no branch and the reward is still there. *)
Lemma noop_tick_keeps_reward :
  run Toy.fresh [CallTick 100 None; CallTick 0 (Some "hardDrop")]
  = Normal (Toy.dropped, ["drop"])
  /\ paused Toy.dropped = false
  /\ spawn_due Toy.dropped (time Toy.dropped + 1) = false
  /\ gravity_due Toy.dropped (time Toy.dropped + 1) = false
  /\ lock_due Toy.dropped (time Toy.dropped + 1) = false
  /\ command_due Toy.dropped None = None
  /\ exists g',
      tick Toy.dropped 1 None = Normal (g', [])
      /\ reward g' = Some 0
      /\ reward g' <> None.
Proof.
  split.
  { unfold run, call. rewrite fresh_to_falling, falling_to_dropped.
    reflexivity. }
  repeat (split; [reflexivity|]).
  eexists. split; [reflexivity|]. split; [reflexivity|discriminate].
Qed.

Lemma tick_unknown_command_witness :
  paused Toy.falling = false
  /\ "teleport" <> EmptyString
  /\ @method Toy.collaborators "teleport" = None
  /\ tick Toy.falling 0 (Some "teleport") = Throw TypeError.
Proof.
  split; [reflexivity|]. split; [discriminate|]. split; [reflexivity|].
  apply (proj2 (tick_unknown_command Toy.falling 0 "teleport"
                                     eq_refl ltac:(discriminate) eq_refl)).
  split; [left; reflexivity|].
  split; [exact gravity_not_due_falling | reflexivity].
Defined.

(** A command the tetrion does not know is not rejected by a spawning
    game: the call returns as if no command had been given. *)
Lemma unknown_command_ignored :
  @method Toy.collaborators "teleport" = None
  /\ tick Toy.fresh 0 (Some "teleport") = Normal (Toy.fresh, [])
  /\ tick Toy.fresh 0 (Some "teleport") <> Throw TypeError.
Proof.
  split; [reflexivity|]. split; [reflexivity|]. discriminate.
Qed.

(** ** Further properties of the calls *)

Section GameProperties.

Context {C : Collaborators}.

Implicit Types (g : Game C) (delta : Z) (command : option string).

(** Splits a goal about [tick] along the branches of the call. *)
Ltac tick_branches :=
  unfold tick, dispatch;
  repeat match goal with
         | |- context [if ?b then _ else _] => destruct b eqn:?
         | |- context [match ?o with Some _ => _ | None => _ end] =>
             destruct o eqn:?
         end.

Ltac returned H := intros H; inversion H; subst; clear H; cbn.

Lemma playSound_muted g c clearLine levelUp :
  muted g = true -> playSound g c clearLine levelUp = [].
Proof. intros H. unfold playSound. rewrite H. reflexivity. Qed.

Lemma cue_one (c : string) :
  cue c = [] \/ exists s, cue c = [s] /\ In s sound_names.
Proof.
  unfold cue, sound_names.
  repeat match goal with
         | |- context [if ?b then _ else _] => destruct b
         end;
    try (left; reflexivity);
    right; eexists; (split; [reflexivity|]); simpl; tauto.
Qed.

Lemma playSound_one g c clearLine levelUp :
  playSound g c clearLine levelUp = []
  \/ exists s, playSound g c clearLine levelUp = [s] /\ In s sound_names.
Proof.
  unfold playSound.
  destruct (muted g); [left; reflexivity|].
  destruct levelUp; [right; eexists; split; [reflexivity|simpl; tauto]|].
  destruct clearLine; [right; eexists; split; [reflexivity|simpl; tauto]|].
  apply cue_one.
Qed.

Lemma tick_flags g delta command g' played :
  tick g delta command = Normal (g', played) ->
  paused g' = paused g /\ muted g' = muted g.
Proof.
  tick_branches; try discriminate; returned H; auto.
Qed.

Lemma tick_time g delta command g' played :
  tick g delta command = Normal (g', played) ->
  time g' = time g + (if paused g then 0 else delta).
Proof.
  unfold tick. destruct (paused g) eqn:Hp.
  - returned H. lia.
  - fold (dispatch g (time g + delta)). unfold dispatch.
    repeat match goal with
           | |- context [if ?b then _ else _] => destruct b eqn:?
           | |- context [match ?o with Some _ => _ | None => _ end] =>
               destruct o eqn:?
           end; try discriminate; returned H; reflexivity.
Qed.

Lemma tick_muted g delta command g' played :
  muted g = true ->
  tick g delta command = Normal (g', played) ->
  played = [].
Proof.
  intros Hm. tick_branches; try discriminate; returned H;
    try reflexivity; apply playSound_muted; assumption.
Qed.

(** Induction along a run: what every call preserves, the run preserves. *)
Lemma run_invariant (P : Game C -> Prop) (ok : Call -> Prop) :
  (forall g c g' played,
      ok c -> P g -> call g c = Normal (g', played) -> P g') ->
  forall calls g g' played,
    Forall ok calls -> P g -> run g calls = Normal (g', played) -> P g'.
Proof.
  intros Hstep. induction calls as [|c calls IH]; intros g g' played Hok HP; cbn [run].
  - intros H. inversion H; subst. exact HP.
  - inversion Hok as [|? ? Hc Hcs]; subst.
    destruct (call g c) as [[g1 p1]|] eqn:Hcall; [|discriminate].
    destruct (run g1 calls) as [[g2 p2]|] eqn:Hrun; [|discriminate].
    intros H. inversion H; subst.
    eapply IH; [eassumption | eapply Hstep; eassumption | eassumption].
Qed.

Lemma pause_pause g : pause (pause g) = g.
Proof. destruct g. unfold pause. cbn. rewrite negb_involutive. reflexivity. Qed.

Lemma mute_mute g : mute (mute g) = g.
Proof. destruct g. unfold mute. cbn. rewrite negb_involutive. reflexivity. Qed.

Lemma run_paused_ticks g steps rest :
  paused g = true -> run g (ticks steps ++ rest) = run g rest.
Proof.
  intros Hp. induction steps as [|[delta command] steps IH]; [reflexivity|].
  cbn [ticks map app run call fst snd]. unfold tick. rewrite Hp.
  fold (ticks steps). rewrite IH.
  destruct (run g rest) as [[g' played]|]; reflexivity.
Qed.

(** X1: [pause] and [mute] are toggles: applying either twice gives back
    the game, and the two commute. *)
Theorem pause_mute_toggle g :
  pause (pause g) = g
  /\ mute (mute g) = g
  /\ pause (mute g) = mute (pause g).
Proof.
  split; [apply pause_pause|]. split; [apply mute_mute|]. reflexivity.
Qed.

(** X2: pausing freezes the game.  Between a [pause] and the next [pause]
    any ticks, whatever their deltas and commands, change nothing, play
    nothing and throw nothing: the run ends in the game it started from. *)
Theorem pause_freezes g steps :
  paused g = false ->
  run g (CallPause :: ticks steps ++ [CallPause]) = Normal (g, []).
Proof.
  intros Hp. cbn [run call].
  rewrite run_paused_ticks by (cbn; rewrite Hp; reflexivity).
  cbn [run call]. rewrite pause_pause. reflexivity.
Qed.

(** X3: a [tick] never changes [paused] or [muted]; only [pause] flips
    the first and only [mute] the second. *)
Theorem call_flags g c g' played :
  call g c = Normal (g', played) ->
  paused g' = match c with
              | CallPause => negb (paused g)
              | _ => paused g
              end
  /\ muted g' = match c with
                | CallMute => negb (muted g)
                | _ => muted g
                end.
Proof.
  destruct c as [delta command| |]; cbn [call].
  - apply tick_flags.
  - returned H. auto.
  - returned H. auto.
Qed.

(** X4: a muted game stays silent.  A run from a muted game that never
    calls [mute] plays no sound at all, and ends muted. *)
Theorem muted_run_silent calls :
  forall g g' played,
    muted g = true ->
    ~ In CallMute calls ->
    run g calls = Normal (g', played) ->
    played = [] /\ muted g' = true.
Proof.
  induction calls as [|c calls IH]; intros g g' played Hm Hn; cbn [run].
  - returned H. auto.
  - destruct (call g c) as [[g1 p1]|] eqn:Hcall; [|discriminate].
    destruct (run g1 calls) as [[g2 p2]|] eqn:Hrun; [|discriminate].
    returned H.
    assert (H1 : p1 = [] /\ muted g1 = true).
    { destruct c as [delta command| |]; cbn [call] in Hcall.
      - split; [eapply tick_muted; eassumption|].
        destruct (tick_flags _ _ _ _ _ Hcall) as [_ Hf]. congruence.
      - inversion Hcall; subst. auto.
      - exfalso. apply Hn. left. reflexivity. }
    destruct H1 as [-> Hm1].
    destruct (IH g1 g' p2 Hm1) as [-> Hm2]; auto.
    intros Hin. apply Hn. right. exact Hin.
Qed.

(** X5: a [tick] plays at most one sound, and only one of the eight
    names of [playSound]. *)
Theorem tick_sounds g delta command g' played :
  tick g delta command = Normal (g', played) ->
  played = [] \/ exists s, played = [s] /\ In s sound_names.
Proof.
  tick_branches; try discriminate; returned H;
    try (left; reflexivity); apply playSound_one.
Qed.

(** X6: muting does not change the course of the game.  A [tick] of the
    muted or unmuted twin of a game throws when the [tick] of the game
    throws, and otherwise returns the twin of what it returns. *)
Theorem tick_mute_commute g delta command :
  match tick g delta command with
  | Normal (g', _) =>
      exists played', tick (mute g) delta command = Normal (mute g', played')
  | Throw e => tick (mute g) delta command = Throw e
  end.
Proof.
  unfold tick, dispatch, spawn_due, gravity_due, lock_due, command_due,
    isSpawning, isIdle, isLocking, gravityDelay, level, copy_tick.
  cbn [mute paused state time spawnTimer lockTimer gravityTimer progress
       tetrion reward muted].
  repeat match goal with
         | |- context [if ?b then _ else _] => destruct b eqn:?
         | |- context [match ?o with Some _ => _ | None => _ end] =>
             destruct o eqn:?
         end;
    try reflexivity; eexists; reflexivity.
Qed.


Lemma tick_timers g delta command g' played :
  0 <= delta ->
  timers_behind g ->
  tick g delta command = Normal (g', played) ->
  timers_behind g'.
Proof.
  intros Hd (H1 & H2 & H3). unfold timers_behind.
  tick_branches; try discriminate; returned H; lia.
Qed.

(** X8: in a new game no timer is ahead of the clock, and no run with
    non-negative deltas puts one ahead. *)
Theorem timers_stay_behind :
  (forall muted, timers_behind (new_Game muted))
  /\ (forall calls g g' played,
         Forall nonneg_delta calls ->
         timers_behind g ->
         run g calls = Normal (g', played) ->
         timers_behind g').
Proof.
  split.
  - intros m. unfold timers_behind. cbn. lia.
  - apply run_invariant.
    intros g c g' played Hc Hg.
    destruct c as [delta command| |]; cbn [call].
    + apply tick_timers; assumption.
    + returned H. exact Hg.
    + returned H. exact Hg.
Qed.

(** X9: the clock counts exactly the ticks made outside a pause: after a
    run, [time] has grown by the sum of the deltas of those ticks. *)
Theorem run_clock calls :
  forall g g' played,
    run g calls = Normal (g', played) ->
    time g' = time g + clock (paused g) calls.
Proof.
  induction calls as [|c calls IH]; intros g g' played; cbn [run clock].
  - returned H. lia.
  - destruct (call g c) as [[g1 p1]|] eqn:Hcall; [|discriminate].
    destruct (run g1 calls) as [[g2 p2]|] eqn:Hrun; [|discriminate].
    returned H. rewrite (IH _ _ _ Hrun).
    destruct c as [delta command| |]; cbn [call] in Hcall.
    + destruct (tick_flags _ _ _ _ _ Hcall) as [Hp _].
      rewrite (tick_time _ _ _ _ _ Hcall), Hp. lia.
    + inversion Hcall; subst. reflexivity.
    + inversion Hcall; subst. reflexivity.
Qed.

(** X10: commands are dropped, not kept for later.  In a paused, spawning
    or finished game, in a tick in which gravity or the lock is due, and
    for a falsy command, [tick] does what it does without a command. *)
Theorem command_dropped g delta command :
  paused g = true
  \/ state g = spawning
  \/ state g = finished
  \/ gravity_due g (time g + delta) = true
  \/ lock_due g (time g + delta) = true
  \/ truthy command = None ->
  tick g delta command = tick g delta None.
Proof.
  unfold tick, command_due, isIdle, isLocking.
  intros [H|[H|[H|[H|[H|H]]]]]; rewrite ?H; cbn [State_eqb orb truthy];
    try reflexivity;
    repeat match goal with
           | |- context [if ?b then _ else _] => destruct b
           end;
    reflexivity.
Qed.

(** X11: the only way a [tick] throws is the dispatch of a truthy command
    for which the tetrion has no operation, in an idle or locking game
    that is not paused and in which no timer is due. *)
Theorem tick_throws_only_unknown g delta command e :
  tick g delta command = Throw e ->
  exists c,
    truthy command = Some c
    /\ method c = None
    /\ paused g = false
    /\ (state g = idle \/ state g = locking)
    /\ gravity_due g (time g + delta) = false
    /\ lock_due g (time g + delta) = false.
Proof.
  unfold tick, dispatch, command_due.
  destruct (paused g); [discriminate|].
  destruct (spawn_due g (time g + delta));
    [destruct (same_object _ _); discriminate|].
  destruct (gravity_due g (time g + delta));
    [destruct (same_object _ _); discriminate|].
  destruct (lock_due g (time g + delta)); [discriminate|].
  destruct (isIdle g || isLocking g) eqn:Hs; [|discriminate].
  destruct (truthy command) as [c|]; [|discriminate].
  destruct (method c) eqn:Hm.
  - repeat match goal with
           | |- context [if ?b then _ else _] => destruct b
           end; discriminate.
  - intros _. exists c. repeat split; auto.
    apply orb_true_iff in Hs. unfold isIdle, isLocking in Hs.
    rewrite !State_eqb_eq in Hs. exact Hs.
Qed.

(** X12: a command in an idle game.  With gravity not due, the command is
    carried out and its reward added to the progress; nothing is played
    if the tetrion is the same object.  Without a falling piece the game
    becomes spawning with [spawnTimer] at the new time; otherwise it stays
    idle, even when the piece cannot move down.  Neither [gravityTimer] nor
    [lockTimer] is touched. *)
Theorem tick_command_idle g delta c f :
  state g = idle ->
  paused g = false ->
  gravity_due g (time g + delta) = false ->
  c <> EmptyString ->
  method c = Some f ->
  exists g' played,
    tick g delta (Some c) = Normal (g', played)
    /\ tetrion g' = Result.tetrion (f (tetrion g) (level g))
    /\ reward g' = Some (Result.reward (f (tetrion g) (level g)))
    /\ progress g'
       = add (progress g) (Result.reward (f (tetrion g) (level g)))
    /\ gravityTimer g' = gravityTimer g
    /\ lockTimer g' = lockTimer g
    /\ (same_object (tetrion g') (tetrion g) = true -> played = [])
    /\ (fallingPiece (tetrion g') = false ->
        state g' = spawning /\ spawnTimer g' = time g + delta)
    /\ (fallingPiece (tetrion g') = true ->
        state g' = idle /\ spawnTimer g' = spawnTimer g).
Proof.
  intros Hs Hp Hg Hc Hf.
  assert (Hl : lock_due g (time g + delta) = false)
    by (unfold lock_due, isLocking; rewrite Hs; reflexivity).
  assert (Hsp : spawn_due g (time g + delta) = false)
    by (unfold spawn_due, isSpawning; rewrite Hs; reflexivity).
  assert (Ht : truthy (Some c) = Some c)
    by (destruct c; [congruence|reflexivity]).
  unfold tick, dispatch, command_due, isIdle, isLocking.
  rewrite Hp, Hsp, Hg, Hl, Hs. cbn [State_eqb orb andb]. rewrite Ht, Hf.
  destruct (fallingPiece (Result.tetrion (f (tetrion g) (level g)))) eqn:Hfp;
    cbn [negb]; eexists; eexists; (split; [reflexivity|]); cbn;
    rewrite ?Hfp; repeat split; auto; try discriminate;
    intros Hsame; rewrite Hsame; reflexivity.
Qed.


(** X14: a timer changes only by being set to the new time:
    [spawnTimer] on entering spawning, [lockTimer] when an idle game becomes
    locking (so no command restarts the lock delay), and [gravityTimer]
    never on entering spawning. *)
Theorem timers_restart g delta command g' played :
  tick g delta command = Normal (g', played) ->
  (spawnTimer g' = spawnTimer g
   \/ (state g' = spawning /\ spawnTimer g' = time g'))
  /\ (lockTimer g' = lockTimer g
      \/ (state g = idle /\ state g' = locking /\ lockTimer g' = time g'))
  /\ (gravityTimer g' = gravityTimer g
      \/ (state g' <> spawning /\ gravityTimer g' = time g')).
Proof.
  unfold tick, dispatch, spawn_due, gravity_due, lock_due, command_due,
    isSpawning, isIdle, isLocking.
  destruct (state g) eqn:Hs; cbn [State_eqb andb orb];
    repeat match goal with
           | |- context [if ?b then _ else _] => destruct b eqn:?
           | |- context [match ?o with Some _ => _ | None => _ end] =>
               destruct o eqn:?
           end;
    try discriminate; returned H; rewrite ?Hs;
    repeat split; auto; right; repeat split; auto; discriminate.
Qed.

(** X15: the spawn delay counts across ticks.  A spawning game that is
    not paused, ticked with non-negative deltas that keep the clock less
    than [SPAWN_DELAY] past [spawnTimer], only has its clock moved, whatever
    the commands. *)
Theorem spawn_delay_accumulates steps :
  forall g,
    state g = spawning ->
    paused g = false ->
    Forall nonneg_delta (ticks steps) ->
    time g + clock false (ticks steps) - spawnTimer g < SPAWN_DELAY ->
    run g (ticks steps)
    = Normal (copy_tick g (time g + clock false (ticks steps)) spawning
                        (tetrion g) (spawnTimer g) (lockTimer g)
                        (gravityTimer g) (progress g) (reward g), []).
Proof.
  induction steps as [|[delta command] steps IH]; intros g Hs Hp Hn Ht.
  - cbn. destruct g. cbn in *. subst. rewrite Z.add_0_r. reflexivity.
  - cbn [ticks map fst snd] in *. fold (ticks steps) in *.
    cbn [clock] in *. inversion Hn as [|? ? Hd Hn']; subst. cbn in Hd.
    assert (Hc : 0 <= clock false (ticks steps)).
    { clear - Hn'. induction steps as [|[d c] steps IH]; cbn; [lia|].
      inversion Hn'; subst. cbn in *. specialize (IH ltac:(assumption)).
      fold (ticks steps). lia. }
    cbn [run call]. unfold tick at 1.
    unfold spawn_due, gravity_due, lock_due, command_due,
      isSpawning, isIdle, isLocking.
    rewrite Hp, Hs. cbn [State_eqb andb orb].
    destruct (Z.leb_spec SPAWN_DELAY (time g + delta - spawnTimer g)); [lia|].
    rewrite IH; cbn; auto; [|lia].
    unfold copy_tick. cbn. rewrite Z.add_assoc. reflexivity.
Qed.

End GameProperties.

(** ** The sign of the gravity delay *)

Section DelaySign.

Local Open Scope R_scope.

Lemma exp_floor_lower (p q : Z) (n : nat) (a b : Z) :
  (0 < q)%Z -> (0 < b)%Z ->
  (0 <= scale + scale * p / (q * 2 ^ Z.of_nat n))%Z ->
  (a * scale <= b * exp_floor p q n)%Z ->
  IZR a / IZR b <= exp (IZR p / IZR q).
Proof.
  intros Hq Hb Hc Hab.
  pose proof scale_pos as Hs.
  assert (Hb' : 0 < IZR b) by (apply IZR_lt; exact Hb).
  eapply Rle_trans; [|apply (exp_floor_sound p q n); assumption].
  apply IZR_le in Hab. rewrite !mult_IZR in Hab.
  apply Rmult_le_reg_r with (IZR b * IZR scale); [nra|].
  replace (IZR a / IZR b * (IZR b * IZR scale)) with (IZR a * IZR scale)
    by (field; lra).
  replace (IZR (exp_floor p q n) / IZR scale * (IZR b * IZR scale))
    with (IZR b * IZR (exp_floor p q n)) by (field; lra).
  exact Hab.
Qed.

Lemma ln_20_upper : ln 20 <= 2.99658.
Proof.
  destruct (Rle_or_lt (ln 20) 2.99658) as [H|H]; [exact H|exfalso].
  apply exp_increasing in H. rewrite exp_ln in H by lra.
  assert (B : IZR 20 / IZR 1 <= exp (IZR 299658 / IZR 100000)).
  { apply (exp_floor_lower 299658 100000 14 20 1);
      [reflexivity | reflexivity | vm_compute; discriminate
       | vm_compute; discriminate]. }
  replace (IZR 299658 / IZR 100000) with 2.99658 in B by lra.
  lra.
Qed.

Lemma ln_21_lower : 3 <= ln 21.
Proof.
  destruct (Rle_or_lt 3 (ln 21)) as [H|H]; [exact H|exfalso].
  apply Ropp_lt_contravar in H.
  apply exp_increasing in H. rewrite (exp_Ropp (ln 21)), exp_ln in H by lra.
  assert (B : IZR 1 / IZR 21 <= exp (IZR (-3) / IZR 1)).
  { apply (exp_floor_lower (-3) 1 14 1 21);
      [reflexivity | reflexivity | vm_compute; discriminate
       | vm_compute; discriminate]. }
  replace (IZR (-3) / IZR 1) with (Ropp 3) in B by lra.
  lra.
Qed.

Lemma gravityDelayOf_positive (l : Z) :
  (1 <= l <= 20)%Z ->
  exists d, gravityDelayOf l = Finite d /\ (1 <= d)%Z.
Proof.
  intros Hl. rewrite gravityDelayOf_finite by lia.
  eexists. split; [reflexivity|].
  unfold Math_round. apply Zfloor_lub.
  assert (H : ln (IZR l) <= ln 20).
  { apply ln_monotone; [apply IZR_lt; lia | apply IZR_le; lia]. }
  pose proof ln_20_upper. lra.
Qed.

Lemma gravityDelayOf_negative (l : Z) :
  (21 <= l)%Z ->
  exists d, gravityDelayOf l = Finite d /\ (d < 0)%Z.
Proof.
  intros Hl. rewrite gravityDelayOf_finite by lia.
  eexists. split; [reflexivity|].
  unfold Math_round. apply lt_IZR.
  assert (H : ln 21 <= ln (IZR l)).
  { apply ln_monotone; [lra | apply IZR_le; lia]. }
  pose proof ln_21_lower.
  pose proof (Zfloor_bound (-333.54 * ln (IZR l) + 999.98 + 0.5)). lra.
Qed.

End DelaySign.

(** ** Gravity at the ends of the level range *)

(** X17: the delay is at least one millisecond on levels 1 to 20 and
    negative from level 21 on.  (The logarithm is read over the real
    numbers.) *)
Theorem gravityDelay_sign :
  (forall l, 1 <= l <= 20 -> exists d, gravityDelayOf l = Finite d /\ 1 <= d)
  /\ (forall l, 21 <= l -> exists d, gravityDelayOf l = Finite d /\ d < 0).
Proof.
  split; [exact gravityDelayOf_positive | exact gravityDelayOf_negative].
Qed.

Section GravityEdges.

Context {C : Collaborators}.

Implicit Types (g : Game C) (delta : Z) (command : option string).

(** X16: below level 1 the delay is [Infinity] or [NaN] and gravity is
    never due: an idle game that gets no command only has its clock
    moved, however large the delta. *)
Theorem gravity_off_below_level_1 g delta :
  level g <= 0 ->
  state g = idle ->
  paused g = false ->
  gravity_due g (time g + delta) = false
  /\ tick g delta None
     = Normal (copy_tick g (time g + delta) idle (tetrion g) (spawnTimer g)
                         (lockTimer g) (gravityTimer g) (progress g)
                         (reward g), []).
Proof.
  intros Hl Hs Hp.
  assert (Hg : gravity_due g (time g + delta) = false).
  { unfold gravity_due, gravityDelay, gravityDelayOf.
    destruct (Z.ltb_spec 0 (level g)); [lia|].
    destruct (level g =? 0); cbn [js_ge]; apply andb_false_r. }
  split; [exact Hg|].
  unfold tick. rewrite Hp, Hg.
  unfold spawn_due, lock_due, command_due, isSpawning, isIdle, isLocking.
  rewrite Hs. reflexivity.
Qed.

(** X18: from level 21 on an idle game falls on every tick.  Whenever the
    new time is not before [gravityTimer], gravity is due, so the tick
    takes the tetrion of [moveDown], plays "move" unless muted, and drops
    the command. *)
Theorem gravity_every_tick_from_level_21 g delta command :
  21 <= level g ->
  state g = idle ->
  paused g = false ->
  gravityTimer g <= time g + delta ->
  gravity_due g (time g + delta) = true
  /\ tick g delta command = tick g delta None
  /\ exists g',
      tick g delta command = Normal (g', if muted g then [] else ["move"])
      /\ tetrion g' = Result.tetrion (moveDown (tetrion g)).
Proof.
  intros Hl Hs Hp Ht.
  assert (Hg : gravity_due g (time g + delta) = true).
  { unfold gravity_due, gravityDelay, isIdle. rewrite Hs.
    destruct (gravityDelayOf_negative (level g) Hl) as (d & -> & Hd).
    cbn. apply Z.leb_le. lia. }
  assert (Hsp : spawn_due g (time g + delta) = false)
    by (unfold spawn_due, isSpawning; rewrite Hs; reflexivity).
  split; [exact Hg|].
  unfold tick. rewrite Hp, Hsp, Hg. split; [reflexivity|].
  assert (Hplay : playSound g "moveDown" false false
                  = if muted g then [] else ["move"])
    by (unfold playSound; destruct (muted g); reflexivity).
  rewrite Hplay.
  destruct (same_object _ _); eexists; split; reflexivity.
Qed.

End GravityEdges.

(** ** The summary *)

Section Summary.

Context {C : Collaborators}.

(** X19: the summary shows the state: two games with the same [toString]
    are in the same state, however numbers and rewards are printed. *)
Theorem toString_shows_state
        (Number_toString : Z -> string)
        (reward_toString : option Reward -> string) g1 g2 :
  toString Number_toString reward_toString g1
  = toString Number_toString reward_toString g2 ->
  state g1 = state g2.
Proof.
  unfold toString.
  destruct (state g1), (state g2); cbn [state_name append];
    intros H; try reflexivity; discriminate H.
Qed.

End Summary.

(** ** The further properties on the small tetrion *)

Lemma pause_freezes_witness :
  paused Toy.fresh = false
  /\ run Toy.fresh
         (CallPause :: ticks [(50, Some "hardDrop"); (2000, None)]
                    ++ [CallPause])
     = Normal (Toy.fresh, []).
Proof.
  split; [reflexivity|].
  apply (pause_freezes Toy.fresh [(50, Some "hardDrop"); (2000, None)]).
  reflexivity.
Defined.

Lemma call_flags_witness :
  call Toy.fresh CallPause = Normal (pause Toy.fresh, [])
  /\ paused (pause Toy.fresh) = negb (paused Toy.fresh)
  /\ muted (pause Toy.fresh) = muted Toy.fresh.
Proof.
  split; [reflexivity|].
  apply (call_flags Toy.fresh CallPause (pause Toy.fresh) []).
  reflexivity.
Defined.

Lemma muted_run_silent_witness :
  muted (mute Toy.fresh) = true
  /\ ~ In CallMute [CallTick 100 None; CallPause]
  /\ run (mute Toy.fresh) [CallTick 100 None; CallPause]
     = Normal (pause (mute Toy.falling), [])
  /\ ([] : list string) = [] /\ muted (pause (mute Toy.falling)) = true.
Proof.
  assert (Hn : ~ In CallMute [CallTick 100 None; CallPause]).
  { simpl. intros [H|[H|H]]; [discriminate H | discriminate H | exact H]. }
  split; [reflexivity|]. split; [exact Hn|]. split; [reflexivity|].
  apply (muted_run_silent [CallTick 100 None; CallPause] (mute Toy.fresh)
                          (pause (mute Toy.falling)) []).
  - reflexivity.
  - exact Hn.
  - reflexivity.
Defined.

Lemma tick_sounds_witness :
  tick Toy.falling 0 (Some "hardDrop") = Normal (Toy.dropped, ["drop"])
  /\ (["drop"] = []
      \/ exists s, ["drop"] = [s] /\ In s sound_names).
Proof.
  split; [exact falling_to_dropped|].
  apply (tick_sounds Toy.falling 0 (Some "hardDrop") Toy.dropped).
  exact falling_to_dropped.
Defined.


Lemma timers_stay_behind_witness :
  Forall nonneg_delta [CallTick 100 None; CallMute]
  /\ timers_behind Toy.fresh
  /\ run Toy.fresh [CallTick 100 None; CallMute]
     = Normal (mute Toy.falling, [])
  /\ timers_behind (mute Toy.falling).
Proof.
  assert (Hn : Forall nonneg_delta [CallTick 100 None; CallMute]).
  { repeat constructor. simpl. lia. }
  assert (Hf : timers_behind Toy.fresh).
  { unfold timers_behind. cbn. lia. }
  split; [exact Hn|]. split; [exact Hf|]. split; [reflexivity|].
  apply (proj2 timers_stay_behind [CallTick 100 None; CallMute] Toy.fresh
               (mute Toy.falling) []).
  - exact Hn.
  - exact Hf.
  - reflexivity.
Defined.

Lemma run_clock_witness :
  run Toy.fresh [CallTick 40 None; CallPause; CallTick 700 None; CallPause;
                 CallTick 60 None]
  = Normal (Toy.falling, [])
  /\ time Toy.falling = time Toy.fresh + 100.
Proof.
  split; [reflexivity|].
  apply (run_clock [CallTick 40 None; CallPause; CallTick 700 None; CallPause;
                    CallTick 60 None] Toy.fresh Toy.falling []).
  reflexivity.
Defined.

Lemma command_dropped_witness :
  state Toy.fresh = spawning
  /\ tick Toy.fresh 100 (Some "hardDrop") = tick Toy.fresh 100 None.
Proof.
  split; [reflexivity|].
  apply (command_dropped Toy.fresh 100 (Some "hardDrop")).
  right. left. reflexivity.
Defined.

Lemma falling_throws :
  tick Toy.falling 0 (Some "teleport") = Throw TypeError.
Proof.
  rewrite (tick_dispatches Toy.falling 0 (Some "teleport") "teleport").
  - reflexivity.
  - reflexivity.
  - left. reflexivity.
  - exact gravity_not_due_falling.
  - reflexivity.
  - reflexivity.
Qed.

Lemma tick_throws_only_unknown_witness :
  tick Toy.falling 0 (Some "teleport") = Throw TypeError
  /\ exists c,
      truthy (Some "teleport") = Some c
      /\ @method Toy.collaborators c = None
      /\ state Toy.falling = idle.
Proof.
  split; [exact falling_throws|].
  destruct (tick_throws_only_unknown Toy.falling 0 (Some "teleport") TypeError
                                     falling_throws)
    as (c & Ht & Hm & _).
  exists c. repeat split; assumption.
Defined.

Lemma tick_command_idle_witness :
  state Toy.falling = idle
  /\ paused Toy.falling = false
  /\ gravity_due Toy.falling (time Toy.falling + 0) = false
  /\ "hardDrop" <> EmptyString
  /\ @method Toy.collaborators "hardDrop" = Some (Toy.fixing Toy.drop)
  /\ exists g' played,
      tick Toy.falling 0 (Some "hardDrop") = Normal (g', played)
      /\ tetrion g' = Toy.mkWell 1 0 None.
Proof.
  split; [reflexivity|]. split; [reflexivity|].
  split; [exact gravity_not_due_falling|].
  split; [discriminate|]. split; [reflexivity|].
  destruct (tick_command_idle Toy.falling 0 "hardDrop" (Toy.fixing Toy.drop))
    as (g' & played & Ht & Hb & _).
  - reflexivity.
  - reflexivity.
  - exact gravity_not_due_falling.
  - discriminate.
  - reflexivity.
  - exists g', played. split; assumption.
Defined.


Lemma timers_restart_witness :
  tick Toy.falling 0 (Some "hardDrop") = Normal (Toy.dropped, ["drop"])
  /\ (lockTimer Toy.dropped = lockTimer Toy.falling
      \/ (state Toy.falling = idle /\ state Toy.dropped = locking
          /\ lockTimer Toy.dropped = time Toy.dropped)).
Proof.
  split; [exact falling_to_dropped|].
  apply (timers_restart Toy.falling 0 (Some "hardDrop") Toy.dropped ["drop"]).
  exact falling_to_dropped.
Defined.

Lemma spawn_delay_accumulates_witness :
  state Toy.fresh = spawning
  /\ paused Toy.fresh = false
  /\ Forall nonneg_delta (ticks [(40, Some "teleport"); (59, None)])
  /\ time Toy.fresh + clock false (ticks [(40, Some "teleport"); (59, None)])
     - spawnTimer Toy.fresh < SPAWN_DELAY
  /\ exists g',
      run Toy.fresh (ticks [(40, Some "teleport"); (59, None)])
      = Normal (g', [])
      /\ time g' = 99.
Proof.
  assert (Hn : Forall nonneg_delta (ticks [(40, Some "teleport"); (59, None)])).
  { repeat constructor; simpl; lia. }
  split; [reflexivity|]. split; [reflexivity|]. split; [exact Hn|].
  split; [reflexivity|].
  eexists. split.
  - apply (spawn_delay_accumulates [(40, Some "teleport"); (59, None)]
                                   Toy.fresh);
      [reflexivity | reflexivity | exact Hn | reflexivity].
  - reflexivity.
Defined.

Lemma gravity_off_below_level_1_witness :
  level Toy.level_zero <= 0
  /\ state Toy.level_zero = idle
  /\ paused Toy.level_zero = false
  /\ gravity_due Toy.level_zero (time Toy.level_zero + 1000000) = false.
Proof.
  assert (Hl : level Toy.level_zero <= 0) by (vm_compute; discriminate).
  split; [exact Hl|]. split; [reflexivity|]. split; [reflexivity|].
  apply (gravity_off_below_level_1 Toy.level_zero 1000000 Hl eq_refl eq_refl).
Defined.

Lemma gravityDelay_sign_witness :
  1 <= 20 <= 20
  /\ 21 <= 21
  /\ (exists d, gravityDelayOf 20 = Finite d /\ 1 <= d)
  /\ (exists d, gravityDelayOf 21 = Finite d /\ d < 0).
Proof.
  split; [lia|]. split; [lia|]. split.
  - apply (proj1 gravityDelay_sign 20). lia.
  - apply (proj2 gravityDelay_sign 21). lia.
Defined.

Lemma gravity_every_tick_from_level_21_witness :
  21 <= level Toy.level_21
  /\ state Toy.level_21 = idle
  /\ paused Toy.level_21 = false
  /\ gravityTimer Toy.level_21 <= time Toy.level_21 + 0
  /\ tick Toy.level_21 0 (Some "moveRight") = tick Toy.level_21 0 None.
Proof.
  assert (Hl : 21 <= level Toy.level_21) by (vm_compute; discriminate).
  assert (Ht : gravityTimer Toy.level_21 <= time Toy.level_21 + 0)
    by (vm_compute; discriminate).
  split; [exact Hl|]. split; [reflexivity|]. split; [reflexivity|].
  split; [exact Ht|].
  apply (gravity_every_tick_from_level_21 Toy.level_21 0 (Some "moveRight")
                                          Hl eq_refl eq_refl Ht).
Defined.

Lemma toString_shows_state_witness :
  @toString Toy.collaborators Toy.show Toy.show_reward Toy.fresh
  = @toString Toy.collaborators Toy.show Toy.show_reward (pause Toy.fresh)
  /\ @toString Toy.collaborators Toy.show Toy.show_reward Toy.fresh
     = "Game (state: spawning, lines: 0, level: 1, score: 0, reward: null)"
  /\ state Toy.fresh = state (pause Toy.fresh).
Proof.
  split; [reflexivity|]. split; [reflexivity|].
  apply (@toString_shows_state Toy.collaborators Toy.show Toy.show_reward Toy.fresh
                              (pause Toy.fresh)).
  reflexivity.
Defined.
